(** * The blog scaffold: the [Image] component and the content schema

    A shallow embedding of the React component [Image] (with its helpers
    [ImgWrapper], [ImgPlaceholder] and [Img]) and of the collection schema
    [blog] of [src/content/config.ts].

    The component is a function from props to an element tree that may call
    the hooks [useState] and [useEffect]; hooks are modelled by a small state
    monad over the cells of one component instance, and the life of an
    instance by the events that can change its cells. *)

From stdpp Require Import base option list strings gmap.

Local Open Scope string_scope.

(** ** Class names *)

(** The arguments [clsx] receives in this program: a string, a boolean
    (the outcome of a short-circuited [&&] chain) or [undefined]. *)
Inductive ClassValue : Type :=
| CvString (s : string)
| CvBool (b : bool)
| CvUndefined.

(** JavaScript truthiness on those values: the empty string, [false] and
    [undefined] are falsy. *)
Definition truthy (v : ClassValue) : bool :=
  match v with
  | CvString s => negb (String.eqb s "")
  | CvBool b => b
  | CvUndefined => false
  end.

(** [a && b] evaluates to [a] when [a] is falsy and to [b] otherwise. *)
Definition js_and (a b : ClassValue) : ClassValue :=
  if truthy a then b else a.

(** An optional string prop: [undefined] when absent. *)
Definition of_prop (o : option string) : ClassValue :=
  match o with
  | Some s => CvString s
  | None => CvUndefined
  end.

(** [clsx]'s [toVal]: strings contribute themselves, booleans nothing. *)
Definition toVal (mix : ClassValue) : string :=
  match mix with
  | CvString s => s
  | CvBool _ | CvUndefined => ""
  end.

(** The loop of [clsx]: every truthy argument with a non-empty [toVal] is
    appended to the accumulator [str], separated by one space. *)
Fixpoint clsx_loop (str : string) (args : list ClassValue) : string :=
  match args with
  | [] => str
  | tmp :: rest =>
      if truthy tmp then
        let x := toVal tmp in
        if String.eqb x "" then clsx_loop str rest
        else clsx_loop ((if String.eqb str "" then str else str +:+ " ") +:+ x) rest
      else clsx_loop str rest
  end.

Definition clsx (args : list ClassValue) : string := clsx_loop "" args.

(** The class list of an element: the white-space separated tokens of its
    [className]. *)
Definition classList (className : string) : list string := String.words className.

(** ** Elements *)

(** A state setter applied to a value: [setLoaded(true)] is [SetState 0 true]
    when [loaded] lives in the first cell of the instance. *)
Inductive Action : Type :=
| SetState (cell : nat) (v : bool).

(** The two kinds of element the components produce. *)
#[warnings="-register-all"]
Inductive Element : Type :=
| div (className : string) (children : list Element)
| img (alt : string) (className : string) (onLoad : option Action) (src : string).

(** The [img] elements of a tree, in document order. *)
Fixpoint images (e : Element) : list Element :=
  match e with
  | div _ children => flat_map images children
  | img _ _ _ _ => [e]
  end.

(** The [onLoad] handlers attached in a tree. *)
Fixpoint loadHandlers (e : Element) : list Action :=
  match e with
  | div _ children => flat_map loadHandlers children
  | img _ _ onLoad _ => option_list onLoad
  end.

(** ** Props *)

Inductive AspectRatio : Type := auto | square | video.

Module ImgClass.
(** The object passed as [imgProps]. *)
Record t : Type := mk { className : option string }.
End ImgClass.

Module Props.
Record t : Type := mk {
  alt : string;
  aspectRatio : option AspectRatio;
  shimmer : option bool;
  src : string;
  imgProps : option ImgClass.t
}.
End Props.

Module ImgProps.
Record t : Type := mk {
  alt : string;
  shimmer : option bool;
  src : string;
  className : option string;
  loaded : option bool;
  handleLoad : option Action
}.
End ImgProps.

Module ImgWrapperProps.
Record t : Type := mk {
  children : list Element;
  aspectRatio : option AspectRatio
}.
End ImgWrapperProps.

(** ** The helper components *)

Definition classNameByAspectRatio (a : AspectRatio) : string :=
  match a with
  | auto => "aspect-auto"
  | square => "aspect-square"
  | video => "aspect-video"
  end.

Definition ImgWrapper (props : ImgWrapperProps.t) : Element :=
  let children := ImgWrapperProps.children props in
  let aspectRatio := default auto (ImgWrapperProps.aspectRatio props) in
  div (classNameByAspectRatio aspectRatio) children.

Definition pulse : string := "bg-slate-100 dark:bg-slate-900 animate-pulse".

Definition ImgPlaceholder : Element :=
  div "h-full w-full bg-slate-100 dark:bg-slate-900 animate-pulse" [].

Definition Img (props : ImgProps.t) : Element :=
  let alt := ImgProps.alt props in
  let className := ImgProps.className props in
  let handleLoad := ImgProps.handleLoad props in
  let loaded := default false (ImgProps.loaded props) in
  let shimmer := default false (ImgProps.shimmer props) in
  let src := ImgProps.src props in
  img alt
      (clsx [ CvString "h-full w-full";
              js_and (js_and (CvBool shimmer) (CvBool (negb loaded))) (CvString pulse);
              of_prop className ])
      handleLoad
      src.

(** ** Hooks *)

(** An effect registered by [useEffect]: its callback and its dependency
    array. *)
Record Effect : Type := mkEffect {
  callback : Action;
  deps : list bool
}.

(** What a render pass threads through the hook calls: the state cells of
    the instance, the index of the next hook, the effects registered so
    far. *)
Record Hooks : Type := mkHooks {
  cells : list bool;
  cursor : nat;
  effects : list Effect
}.

Definition Render (A : Type) : Type := Hooks → A * Hooks.

#[export] Instance Render_ret : MRet Render := λ A x h, (x, h).
#[export] Instance Render_bind : MBind Render :=
  λ A B f m h, let '(x, h') := m h in f x h'.

(** [useState init]: the value of the next cell, created with [init] on the
    first render, and the setter of that cell. *)
Definition useState (init : bool) : Render (bool * (bool → Action)) :=
  λ h,
    let i := cursor h in
    match cells h !! i with
    | Some v => ((v, SetState i), mkHooks (cells h) (S i) (effects h))
    | None => ((init, SetState i), mkHooks (cells h ++ [init]) (S i) (effects h))
    end.

(** [useEffect callback deps] registers the effect; it runs when the render
    is committed on the client. *)
Definition useEffect (cb : Action) (ds : list bool) : Render unit :=
  λ h, (tt, mkHooks (cells h) (cursor h) (effects h ++ [mkEffect cb ds])).

(** ** The component *)

(** Props that a JSX element does not mention are [undefined], here [None]:
    neither call of [Img] mentions [shimmer]. *)
Definition Image (props : Props.t) : Render Element :=
  let alt := Props.alt props in
  let aspectRatio := default auto (Props.aspectRatio props) in
  let imgProps := default (ImgClass.mk None) (Props.imgProps props) in
  let shimmer := default false (Props.shimmer props) in
  let src := Props.src props in
  let className := ImgClass.className imgProps in
  if negb shimmer then
    mret (ImgWrapper
            {| ImgWrapperProps.aspectRatio := Some aspectRatio;
               ImgWrapperProps.children :=
                 [Img {| ImgProps.alt := alt;
                         ImgProps.className := className;
                         ImgProps.src := src;
                         ImgProps.shimmer := None;
                         ImgProps.loaded := None;
                         ImgProps.handleLoad := None |}] |})
  else
    '(loaded, setLoaded) ← useState false;
    '(mounted, setMounted) ← useState false;
    let handleLoad := setLoaded true in
    _ ← useEffect (setMounted true) [];
    mret (ImgWrapper
            {| ImgWrapperProps.aspectRatio := Some aspectRatio;
               ImgWrapperProps.children :=
                 [if mounted : bool
                  then Img {| ImgProps.alt := alt;
                              ImgProps.className := className;
                              ImgProps.handleLoad := Some handleLoad;
                              ImgProps.loaded := Some loaded;
                              ImgProps.src := src;
                              ImgProps.shimmer := None |}
                  else ImgPlaceholder] |}).

(** ** The life of one rendered instance *)

(** What React keeps for one instance between renders: the state cells, and
    the effects of the last committed render ([None] until the first commit
    on the client; a server-only render never commits). *)
Record Instance : Type := mkInstance {
  state : list bool;
  committed : option (list Effect)
}.

(** One render pass of [Image] over the cells of the instance. *)
Definition render (props : Props.t) (i : Instance) : Element * Hooks :=
  Image props (mkHooks (state i) 0 []).

(** The tree the instance shows. *)
Definition view (props : Props.t) (i : Instance) : Element :=
  fst (render props i).

(** The first render creates the cells from the initial values of the
    [useState] calls. *)
Definition mount (props : Props.t) : Instance :=
  mkInstance (cells (snd (render props (mkInstance [] None)))) None.

(** A setter call writes its cell. *)
Definition dispatch (st : list bool) (a : Action) : list bool :=
  match a with
  | SetState c v => <[c := v]> st
  end.

(** The effects a commit runs: all of them on the first commit, later only
    those whose dependency array differs from the committed one. *)
Fixpoint pending (prev : option (list Effect)) (now : list Effect) : list Action :=
  match now with
  | [] => []
  | e :: now' =>
      match prev with
      | None => callback e :: pending None now'
      | Some [] => callback e :: pending (Some []) now'
      | Some (e0 :: prev') =>
          if decide (deps e0 = deps e)
          then pending (Some prev') now'
          else callback e :: pending (Some prev') now'
      end
  end.

(** The two things that can happen to an instance: the client commits the
    render and runs its effects (environment confirmation), or an [img] of
    the tree reports that its source is loaded. *)
Inductive Event : Type := Commit | Load.

Definition fire (props : Props.t) (i : Instance) (ev : Event) : Instance :=
  match ev with
  | Commit =>
      let registered := effects (snd (render props i)) in
      mkInstance (foldl dispatch (state i) (pending (committed i) registered))
                 (Some registered)
  | Load =>
      mkInstance (foldl dispatch (state i) (loadHandlers (view props i)))
                 (committed i)
  end.

(** The instance after a sequence of events. *)
Definition run (props : Props.t) (evs : list Event) : Instance :=
  foldl (fire props) (mount props) evs.

(** The instances passed through, the first one included. *)
Fixpoint trace_from (props : Props.t) (i : Instance) (evs : list Event) : list Instance :=
  match evs with
  | [] => [i]
  | ev :: evs' => i :: trace_from props (fire props i ev) evs'
  end.

Definition trace (props : Props.t) (evs : list Event) : list Instance :=
  trace_from props (mount props) evs.

(** The two flags of the shimmer path, read from the cells in the order of
    the [useState] calls. *)
Definition loaded (i : Instance) : bool := default false (state i !! 0).
Definition mounted (i : Instance) : bool := default false (state i !! 1).

(** The states of the specification's state machine. *)
Inductive Phase : Type := UNCONFIRMED | CONFIRMED_LOADING | CONFIRMED_LOADED.

Definition phase (i : Instance) : option Phase :=
  match mounted i, loaded i with
  | false, false => Some UNCONFIRMED
  | true, false => Some CONFIRMED_LOADING
  | true, true => Some CONFIRMED_LOADED
  | false, true => None
  end.

(** How often a flag changes along a sequence of observations. *)
Fixpoint flips (bs : list bool) : nat :=
  match bs with
  | b :: (b' :: _) as rest => (if Bool.eqb b b' then 0 else 1) + flips rest
  | _ => 0
  end.

(** ** The request as the specification names it *)

(** The props after their defaults: [aspectRatio = 'auto'],
    [shimmer = false], [imgProps = {}]. *)
Definition aspectRatioMode (props : Props.t) : AspectRatio :=
  default auto (Props.aspectRatio props).

Definition shimmerEnabled (props : Props.t) : bool :=
  default false (Props.shimmer props).

Definition extraClassName (props : Props.t) : option string :=
  ImgClass.className (default (ImgClass.mk None) (Props.imgProps props)).

(** The class tokens of the pulsing treatment. *)
Definition pulseClasses : list string := classList pulse.

(** The instances an [Image] with the given props can be in. *)
Definition reachable (props : Props.t) (i : Instance) : Prop :=
  ∃ evs, i = run props evs.

(** The shape of the cells of a shimmer instance: two flags, the image
    never loaded before the environment is confirmed. *)
Definition coherent (i : Instance) : Prop :=
  ∃ l m, state i = [l; m] ∧ (l = true → m = true).

(** Every element of a tree, the root first. *)
Fixpoint subtrees (e : Element) : list Element :=
  match e with
  | div _ children => e :: flat_map subtrees children
  | img _ _ _ _ => [e]
  end.

(** The request of the specification's concrete scenario. *)
Definition catRequest : Props.t :=
  Props.mk "A cat" (Some video) (Some true) "/cat.jpg" None.

(** The container with the one [img] in it, without handler and without
    shimmer fragment. *)
Definition plainTree (props : Props.t) : Element :=
  div (classNameByAspectRatio (aspectRatioMode props))
    [img (Props.alt props)
         (clsx [CvString "h-full w-full"; of_prop (extraClassName props)])
         None (Props.src props)].

(** A request that leaves every optional prop out. *)
Definition plainRequest : Props.t := Props.mk "A cat" None None "/cat.jpg" None.

(** The same request with every optional prop spelled out. *)
Definition plainRequest' : Props.t :=
  Props.mk "A cat" (Some auto) (Some false) "/cat.jpg" (Some (ImgClass.mk None)).

(** A request without shimmer whose strings are empty. *)
Definition emptyRequest : Props.t := Props.mk "" None None "" None.

(** ** The content schema *)

(** The values a frontmatter field can hold once the document is read: the
    JavaScript values [undefined] (also what reading an absent key gives),
    [null], booleans, numbers, strings, [Date] objects (with no time value
    when the date is invalid), arrays and objects. *)
#[warnings="-register-all"]
Inductive Value : Type :=
| VUndefined
| VNull
| VBoolean (b : bool)
| VNumber (n : Z)
| VString (s : string)
| VDate (time : option Z)
| VArray (items : list Value)
| VObject (fields : gmap string Value).

(** [data[key]]. *)
Definition field (data : gmap string Value) (key : string) : Value :=
  default VUndefined (data !! key).

(** What the validation library reports: a code and the path of the
    offending value. *)
Inductive IssueCode : Type := invalid_type | invalid_date | invalid_union.

Record Issue : Type := mkIssue {
  code : IssueCode;
  path : list string
}.

(** A schema checks a value found at a path and returns the issues; none
    means the value is accepted.  The combinators below are the ones
    [config.ts] builds [blog] from, with the behaviour the validation library
    documents for them. *)
Definition Schema : Type := list string → Value → list Issue.

(** [z.string()]: strings only. *)
Definition z_string : Schema :=
  λ path v,
    match v with
    | VString _ => []
    | _ => [mkIssue invalid_type path]
    end.

(** [z.date()]: [Date] objects that denote a time. *)
Definition z_date : Schema :=
  λ path v,
    match v with
    | VDate (Some _) => []
    | VDate None => [mkIssue invalid_date path]
    | _ => [mkIssue invalid_type path]
    end.

(** [a.or(b)]: accepted by one of the two. *)
Definition z_or (a b : Schema) : Schema :=
  λ path v,
    match a path v with
    | [] => []
    | _ :: _ =>
        match b path v with
        | [] => []
        | _ :: _ => [mkIssue invalid_union path]
        end
    end.

(** [a.optional()]: [undefined], or accepted by [a]. *)
Definition z_optional (a : Schema) : Schema :=
  λ path v,
    match v with
    | VUndefined => []
    | _ => a path v
    end.

(** [z.object(shape)]: an object each of whose shape keys holds a value its
    schema accepts; keys outside the shape are not looked at. *)
Definition z_object (shape : list (string * Schema)) : Schema :=
  λ path v,
    match v with
    | VObject data =>
        flat_map (λ '(key, schema), schema (path ++ [key])%list (field data key)) shape
    | _ => [mkIssue invalid_type path]
    end.

Record Collection : Type := defineCollection { schema : Schema }.

Definition blog : Collection :=
  defineCollection
    (z_object
       [ ("title", z_string);
         ("description", z_string);
         ("publishDate", z_optional (z_or z_string z_date));
         ("updateDate", z_optional (z_or z_string z_date));
         ("heroImage", z_optional z_string) ]).

(** The issues the build reports for the frontmatter of an entry; the build
    fails unless there are none. *)
Definition issues (c : Collection) (data : Value) : list Issue :=
  schema c [] data.

Definition clean (l : list Issue) : bool :=
  match l with
  | [] => true
  | _ :: _ => false
  end.

Definition accepts (c : Collection) (data : Value) : bool :=
  clean (issues c data).

(** The record shape in the specification's words: [title] and
    [description] strings, [publishDate] and [updateDate] absent or a string
    or a date, [heroImage] absent or a string. *)
Definition isString (v : Value) : bool :=
  match v with VString _ => true | _ => false end.

Definition isDate (v : Value) : bool :=
  match v with VDate (Some _) => true | _ => false end.

Definition isAbsent (v : Value) : bool :=
  match v with VUndefined => true | _ => false end.

Definition matchesRecordShape (data : Value) : bool :=
  match data with
  | VObject fields =>
      isString (field fields "title")
      && isString (field fields "description")
      && (isAbsent (field fields "publishDate")
          || isString (field fields "publishDate")
          || isDate (field fields "publishDate"))
      && (isAbsent (field fields "updateDate")
          || isString (field fields "updateDate")
          || isDate (field fields "updateDate"))
      && (isAbsent (field fields "heroImage")
          || isString (field fields "heroImage"))
  | _ => false
  end.

(** Two entries: a complete one, and one whose title is a number. *)
Definition goodPost : Value :=
  VObject (<["title" := VString "Hello"]>
           (<["description" := VString "First post"]>
           (<["publishDate" := VDate (Some 1700000000000%Z)]>
           (<["tags" := VArray [VString "a"]]> ∅)))).

Definition badPost : Value :=
  VObject (<["title" := VNumber 42]>
           (<["description" := VString "First post"]> ∅)).

(** ** The state machine and the shape of the schema *)

(** The effect [Image] registers: [setMounted(true)] with an empty dependency
    array, [mounted] being the second cell. *)
Definition mountEffect : Effect := mkEffect (SetState 1 true) [].

(** What an event does to the state of the specification's state machine. *)
Definition next (ph : Phase) (ev : Event) : Phase :=
  match ph, ev with
  | UNCONFIRMED, Commit => CONFIRMED_LOADING
  | UNCONFIRMED, Load => UNCONFIRMED
  | CONFIRMED_LOADING, Commit => CONFIRMED_LOADING
  | CONFIRMED_LOADING, Load => CONFIRMED_LOADED
  | CONFIRMED_LOADED, _ => CONFIRMED_LOADED
  end.

(** The environment is confirmed exactly when the render has been committed,
    and then the committed effect is the one [Image] registers. *)
Definition settled (i : Instance) : Prop :=
  (committed i = None ∧ mounted i = false)
  ∨ (committed i = Some [mountEffect] ∧ mounted i = true).

(** The shape [blog] hands to [z.object], key by key. *)
Definition blogShape : list (string * Schema) :=
  [ ("title", z_string);
    ("description", z_string);
    ("publishDate", z_optional (z_or z_string z_date));
    ("updateDate", z_optional (z_or z_string z_date));
    ("heroImage", z_optional z_string) ].

Definition shapeKeys : list string := fst <$> blogShape.

(** Whether the value found at a key of the shape is one its schema takes. *)
Definition fieldOK (key : string) (v : Value) : bool :=
  if decide (key = "title") then isString v
  else if decide (key = "description") then isString v
  else if decide (key = "publishDate") then isAbsent v || isString v || isDate v
  else if decide (key = "updateDate") then isAbsent v || isString v || isDate v
  else if decide (key = "heroImage") then isAbsent v || isString v
  else true.

(** The code of the issue reported at a key: the two date fields are unions,
    the others plain strings. *)
Definition codeAt (key : string) : IssueCode :=
  if decide (key = "publishDate") then invalid_union
  else if decide (key = "updateDate") then invalid_union
  else invalid_type.

Definition isObject (v : Value) : bool :=
  match v with VObject _ => true | _ => false end.

(** A record that sets two optional fields to [null] and carries a key
    outside the shape. *)
Definition nullPost : Value :=
  VObject (<["title" := VString "Hello"]>
           (<["description" := VString "First post"]>
           (<["updateDate" := VNull]>
           (<["heroImage" := VNull]>
           (<["draft" := VBoolean true]> ∅))))).

(** * Properties *)

(** ** Class strings and class lists *)

Section ClassLists.

Lemma words_go_sep (cur : option string) (a b : string) :
  String.words_go cur (a +:+ " " +:+ b)
  = (String.words_go cur a ++ String.words b)%list.
Proof.
  revert cur. induction a as [|c a IH]; intros cur.
  - reflexivity.
  - change (String c a +:+ " " +:+ b) with (String c (a +:+ " " +:+ b)).
    cbn [String.words_go]. destruct (Ascii.is_space c).
    + rewrite IH, (assoc_L (++)). reflexivity.
    + apply IH.
Qed.

(** Joining two class strings with a space concatenates their class
    lists. *)
Lemma classList_sep (a b : string) :
  classList (a +:+ " " +:+ b) = (classList a ++ classList b)%list.
Proof. apply words_go_sep. Qed.

(** What [clsx] makes of the base classes, an untaken shimmer fragment and
    the caller's class. *)
Lemma clsx_base_extra (className : option string) :
  clsx [CvString "h-full w-full"; CvBool false; of_prop className]
  = match className with
    | None | Some "" => "h-full w-full"
    | Some c => "h-full w-full" +:+ " " +:+ c
    end.
Proof. destruct className as [[|c s]|]; reflexivity. Qed.

Lemma classList_base_extra (className : option string) :
  classList (clsx [CvString "h-full w-full"; CvBool false; of_prop className])
  = (["h-full"; "w-full"] ++ classList (default "" className))%list.
Proof.
  rewrite clsx_base_extra. destruct className as [[|c s]|].
  - reflexivity.
  - apply classList_sep.
  - reflexivity.
Qed.

(** [Img] composes the pulse fragment in exactly when it is told
    [shimmer] and the image is not loaded. *)
Lemma Img_className (p : ImgProps.t) :
  Img p = img (ImgProps.alt p)
              (clsx [CvString "h-full w-full";
                     if default false (ImgProps.shimmer p)
                        && negb (default false (ImgProps.loaded p))
                     then CvString pulse else CvBool false;
                     of_prop (ImgProps.className p)])
              (ImgProps.handleLoad p) (ImgProps.src p).
Proof.
  unfold Img.
  destruct (default false (ImgProps.shimmer p)),
    (default false (ImgProps.loaded p)); reflexivity.
Qed.

End ClassLists.

(** ** Rendering *)

Section Rendering.

Variable props : Props.t.

(** Without shimmer no hook is called: the pass returns the tree and
    leaves the hook state as it found it. *)
Lemma Image_plain (h : Hooks) :
  shimmerEnabled props = false →
  Image props h
  = (div (classNameByAspectRatio (aspectRatioMode props))
       [img (Props.alt props)
            (clsx [CvString "h-full w-full"; CvBool false;
                   of_prop (extraClassName props)])
            None (Props.src props)],
     h).
Proof.
  unfold shimmerEnabled, Image. intros ->. reflexivity.
Qed.

(** With shimmer the tree is decided by the two cells. *)
Lemma render_shimmer (i : Instance) :
  shimmerEnabled props = true →
  render props i
  = (div (classNameByAspectRatio (aspectRatioMode props))
       [if mounted i
        then img (Props.alt props)
                 (clsx [CvString "h-full w-full"; CvBool false;
                        of_prop (extraClassName props)])
                 (Some (SetState 0 true)) (Props.src props)
        else ImgPlaceholder],
     mkHooks (match state i with
              | [] => [false; false]
              | [l] => [l; false]
              | st => st
              end) 2 [mkEffect (SetState 1 true) []]).
Proof.
  unfold shimmerEnabled, render, Image, mounted. intros ->.
  destruct i as [[|l [|m st]] c]; reflexivity.
Qed.

Lemma view_shimmer (i : Instance) :
  shimmerEnabled props = true →
  view props i
  = div (classNameByAspectRatio (aspectRatioMode props))
      [if mounted i
       then img (Props.alt props)
                (clsx [CvString "h-full w-full"; CvBool false;
                       of_prop (extraClassName props)])
                (Some (SetState 0 true)) (Props.src props)
       else ImgPlaceholder].
Proof. intros H. unfold view. rewrite render_shimmer; done. Qed.

Lemma view_plain (i : Instance) :
  shimmerEnabled props = false →
  view props i
  = div (classNameByAspectRatio (aspectRatioMode props))
      [img (Props.alt props)
           (clsx [CvString "h-full w-full"; CvBool false;
                  of_prop (extraClassName props)])
           None (Props.src props)].
Proof. intros H. unfold view, render. rewrite Image_plain; done. Qed.

Lemma mount_shimmer :
  shimmerEnabled props = true → mount props = mkInstance [false; false] None.
Proof. intros H. unfold mount. rewrite render_shimmer; done. Qed.

Lemma mount_plain :
  shimmerEnabled props = false → mount props = mkInstance [] None.
Proof. intros H. unfold mount, render. rewrite Image_plain; done. Qed.

End Rendering.

(** ** The life of a shimmer instance *)

Section Lifecycle.

Variable props : Props.t.
Hypothesis shimmer_on : shimmerEnabled props = true.

Lemma pending_single (prev : option (list Effect)) (e : Effect) :
  pending prev [e] = [] ∨ pending prev [e] = [callback e].
Proof.
  destruct prev as [[|e0 prev]|]; cbn; auto.
  case_decide; auto.
Qed.

Lemma pending_first (now : list Effect) :
  pending None now = callback <$> now.
Proof. induction now as [|e now IH]; cbn; [done | by rewrite IH]. Qed.

(** A commit can only set the second cell. *)
Lemma fire_Commit_state (i : Instance) (l m : bool) :
  state i = [l; m] →
  state (fire props i Commit) = [l; m] ∨ state (fire props i Commit) = [l; true].
Proof.
  intros Hst. cbn [fire state]. rewrite render_shimmer by done. cbn [snd effects].
  destruct (pending_single (committed i) (mkEffect (SetState 1 true) [])) as [-> | ->];
    rewrite Hst; cbn; auto.
Qed.

(** The first commit sets it. *)
Lemma fire_Commit_first (i : Instance) (l m : bool) :
  state i = [l; m] → committed i = None →
  state (fire props i Commit) = [l; true].
Proof.
  intros Hst Hc. cbn [fire state]. rewrite render_shimmer by done.
  rewrite Hc, pending_first, Hst. reflexivity.
Qed.

(** A load event reaches the setter only through the [img], which is in
    the tree only when the second cell is set. *)
Lemma fire_Load_state (i : Instance) (l m : bool) :
  state i = [l; m] →
  state (fire props i Load) = if m then [true; m] else [l; m].
Proof.
  intros Hst. cbn [fire state]. rewrite view_shimmer by done.
  unfold mounted. rewrite Hst. destruct m; reflexivity.
Qed.

Lemma fire_coherent (i : Instance) (ev : Event) :
  coherent i → coherent (fire props i ev).
Proof.
  intros (l & m & Hst & Hlm). destruct ev.
  - destruct (fire_Commit_state i l m Hst) as [H | H].
    + exists l, m. auto.
    + exists l, true. auto.
  - pose proof (fire_Load_state i l m Hst) as H. destruct m.
    + exists true, true. auto.
    + exists l, false. auto.
Qed.

Lemma foldl_fire_coherent (evs : list Event) (i : Instance) :
  coherent i → coherent (foldl (fire props) i evs).
Proof.
  revert i. induction evs as [|ev evs IH]; intros i Hi; cbn; [done|].
  apply IH, fire_coherent, Hi.
Qed.

Lemma mount_coherent : coherent (mount props).
Proof.
  rewrite mount_shimmer by done. exists false, false. split; [done | congruence].
Qed.

Lemma run_coherent (evs : list Event) : coherent (run props evs).
Proof. apply foldl_fire_coherent, mount_coherent. Qed.

Lemma reachable_coherent (i : Instance) : reachable props i → coherent i.
Proof. intros [evs ->]. apply run_coherent. Qed.

Lemma fire_loaded_mono (i : Instance) (ev : Event) :
  coherent i → loaded i = true → loaded (fire props i ev) = true.
Proof.
  intros (l & m & Hst & Hlm). unfold loaded. rewrite Hst. cbn. intros ->.
  destruct ev.
  - destruct (fire_Commit_state i true m Hst) as [-> | ->]; reflexivity.
  - rewrite (fire_Load_state i true m Hst). destruct m; reflexivity.
Qed.

Lemma fire_mounted_mono (i : Instance) (ev : Event) :
  coherent i → mounted i = true → mounted (fire props i ev) = true.
Proof.
  intros (l & m & Hst & Hlm). unfold mounted. rewrite Hst. cbn. intros ->.
  destruct ev.
  - destruct (fire_Commit_state i l true Hst) as [-> | ->]; reflexivity.
  - rewrite (fire_Load_state i l true Hst). reflexivity.
Qed.

(** A load event in the final state changes nothing at all. *)
Lemma fire_Load_loaded (i : Instance) :
  loaded i = true → mounted i = true → fire props i Load = i.
Proof.
  intros Hl Hm. destruct i as [st c]. cbn [fire state committed]. f_equal.
  rewrite view_shimmer, Hm by done. cbn.
  unfold loaded in Hl. cbn in Hl.
  destruct st as [|[] st]; cbn in *; congruence.
Qed.

Lemma trace_from_head (i : Instance) (evs : list Event) :
  ∃ rest, trace_from props i evs = i :: rest.
Proof. destruct evs; cbn; eauto. Qed.

Lemma flips_cons (b b' : bool) (bs : list bool) :
  flips (b :: b' :: bs) = (if Bool.eqb b b' then 0 else 1) + flips (b' :: bs).
Proof. reflexivity. Qed.

Lemma flips_true (f : Instance → bool) (evs : list Event) (i : Instance) :
  (∀ j ev, coherent j → f j = true → f (fire props j ev) = true) →
  coherent i → f i = true → flips (f <$> trace_from props i evs) = 0.
Proof.
  intros Hmono. revert i. induction evs as [|ev evs IH]; intros i Hi Hf; [done|].
  pose proof (IH (fire props i ev) (fire_coherent _ _ Hi) (Hmono _ _ Hi Hf)) as IH'.
  cbn [trace_from].
  destruct (trace_from_head (fire props i ev) evs) as [rest Hrest].
  rewrite Hrest in *. rewrite !fmap_cons in *.
  rewrite flips_cons, IH', Hf, (Hmono _ _ Hi Hf). reflexivity.
Qed.

Lemma flips_once (f : Instance → bool) (evs : list Event) (i : Instance) :
  (∀ j ev, coherent j → f j = true → f (fire props j ev) = true) →
  coherent i → (flips (f <$> trace_from props i evs) ≤ 1)%nat.
Proof.
  intros Hmono. revert i. induction evs as [|ev evs IH]; intros i Hi; [cbn; lia|].
  destruct (f i) eqn:Hf.
  { rewrite (flips_true f (ev :: evs) i); auto. }
  pose proof (fire_coherent _ ev Hi) as Hi'.
  pose proof (IH _ Hi') as H1.
  pose proof (flips_true f evs _ Hmono Hi') as H0.
  cbn [trace_from].
  destruct (trace_from_head (fire props i ev) evs) as [rest Hrest].
  rewrite Hrest in *. rewrite !fmap_cons in *. rewrite flips_cons, Hf.
  destruct (f (fire props i ev)) eqn:Hf'; cbn [Bool.eqb].
  - rewrite H0; auto.
  - lia.
Qed.

End Lifecycle.

(** ** The life of an instance without shimmer *)

Section Plain.

Variable props : Props.t.
Hypothesis shimmer_off : shimmerEnabled props = false.

Lemma fire_plain (i : Instance) (ev : Event) :
  state (fire props i ev) = state i.
Proof.
  destruct ev; cbn [fire state].
  - unfold render. rewrite Image_plain by done. cbn [snd effects].
    destruct (committed i) as [[|]|]; reflexivity.
  - rewrite view_plain by done. reflexivity.
Qed.

Lemma foldl_fire_plain (evs : list Event) (i : Instance) :
  state (foldl (fire props) i evs) = state i.
Proof.
  revert i. induction evs as [|ev evs IH]; intros i; cbn; [done|].
  rewrite IH. apply fire_plain.
Qed.

(** No cell is ever created. *)
Lemma run_plain (evs : list Event) : state (run props evs) = [].
Proof.
  unfold run. rewrite foldl_fire_plain, mount_plain by done. reflexivity.
Qed.

End Plain.

(** The container is there in every render, whatever the path. *)
Lemma view_container (props : Props.t) (i : Instance) :
  ∃ children,
    view props i = div (classNameByAspectRatio (aspectRatioMode props)) children.
Proof.
  destruct (shimmerEnabled props) eqn:Hs.
  - rewrite view_shimmer by done. eauto.
  - rewrite view_plain by done. eauto.
Qed.

(** The class string of the [img] never contains the shimmer fragment:
    [Image] does not hand its [shimmer] prop down to [Img]. *)
Lemma Image_img_className (props : Props.t) (i : Instance) (e : Element) :
  e ∈ images (view props i) →
  ∃ handler,
    e = img (Props.alt props)
            (clsx [CvString "h-full w-full"; CvBool false;
                   of_prop (extraClassName props)])
            handler (Props.src props).
Proof.
  destruct (shimmerEnabled props) eqn:Hs.
  - rewrite view_shimmer by done. destruct (mounted i); cbn.
    + intros ->%list_elem_of_singleton. eauto.
    + intros []%elem_of_nil.
  - rewrite view_plain by done. cbn.
    intros ->%list_elem_of_singleton. eauto.
Qed.

(** ** The claims about the component *)

(** C1, evaluated on the code at the specification's scenario: after the
    environment is confirmed and before the image is loaded the [img] is in
    the tree, but its class string is ["h-full w-full"] and none of the pulse
    classes is in its class list.  [Image] never passes [shimmer] to [Img];
    [Img] itself, told [shimmer] with the image not loaded, does compose the
    pulse classes in. *)
Theorem C1_pulse_classes_not_composed :
  Props.shimmer catRequest = Some true ∧
  mounted (run catRequest [Commit]) = true ∧
  loaded (run catRequest [Commit]) = false ∧
  view catRequest (run catRequest [Commit])
  = div "aspect-video"
      [img "A cat" "h-full w-full" (Some (SetState 0 true)) "/cat.jpg"] ∧
  (∀ c, c ∈ pulseClasses → c ∉ classList "h-full w-full") ∧
  Img (ImgProps.mk "A cat" (Some true) "/cat.jpg" None (Some false)
         (Some (SetState 0 true)))
  = img "A cat" "h-full w-full bg-slate-100 dark:bg-slate-900 animate-pulse"
      (Some (SetState 0 true)) "/cat.jpg".
Proof.
  repeat split.
  intros c Hc Hin. vm_compute in Hc, Hin.
  repeat (apply elem_of_cons in Hc as [-> | Hc]);
    repeat (apply elem_of_cons in Hin as [Hin | Hin]; try discriminate);
    try (apply elem_of_nil in Hin; contradiction);
    apply elem_of_nil in Hc; contradiction.
Qed.

(** C2: with shimmer on and the environment not yet confirmed, the container
    holds the placeholder (full height, full width, pulsing) and the tree has
    no [img] element. *)
Theorem C2_unconfirmed_renders_placeholder (props : Props.t) (i : Instance) :
  shimmerEnabled props = true →
  mounted i = false →
  view props i
  = div (classNameByAspectRatio (aspectRatioMode props)) [ImgPlaceholder] ∧
  ImgPlaceholder ∈ subtrees (view props i) ∧
  images (view props i) = [] ∧
  ∃ className,
    ImgPlaceholder = div className [] ∧
    "h-full" ∈ classList className ∧
    "w-full" ∈ classList className ∧
    "animate-pulse" ∈ classList className.
Proof.
  intros Hs Hm. rewrite view_shimmer, Hm by done. repeat split.
  - cbn. set_solver.
  - eexists. split; [reflexivity|]. vm_compute. set_solver.
Qed.

Lemma C2_unconfirmed_renders_placeholder_witness :
  shimmerEnabled catRequest = true ∧
  mounted (mount catRequest) = false ∧
  view catRequest (mount catRequest)
  = div (classNameByAspectRatio (aspectRatioMode catRequest)) [ImgPlaceholder].
Proof.
  split; [reflexivity|]. split; [reflexivity|].
  apply (C2_unconfirmed_renders_placeholder catRequest (mount catRequest));
    reflexivity.
Defined.

(** C3: without shimmer the first render already is the container with the
    one [img] inside; every later render is that same tree, no placeholder is
    in it, and the instance has no state that could change. *)
Theorem C3_plain_renders_image_at_once (props : Props.t) (evs : list Event) :
  shimmerEnabled props = false →
  view props (mount props) = plainTree props ∧
  view props (run props evs) = plainTree props ∧
  (ImgPlaceholder ∉ subtrees (view props (run props evs))) ∧
  state (run props evs) = [].
Proof.
  intros Hs.
  assert (∀ i, view props i = plainTree props) as Hview.
  { intros i. rewrite view_plain by done. reflexivity. }
  rewrite !Hview. repeat split.
  - cbn. intros H.
    repeat (apply elem_of_cons in H as [H | H]; try discriminate).
    by apply elem_of_nil in H.
  - by apply run_plain.
Qed.

Lemma C3_plain_renders_image_at_once_witness :
  shimmerEnabled emptyRequest = false ∧
  view emptyRequest (run emptyRequest [Load; Commit; Load])
  = div "aspect-auto" [img "" "h-full w-full" None ""].
Proof.
  split; [reflexivity|].
  apply (C3_plain_renders_image_at_once emptyRequest [Load; Commit; Load]).
  reflexivity.
Defined.

(** C4: the sizing class of the container is given by the aspect-ratio mode
    through a one-to-one map onto the three classes [aspect-auto],
    [aspect-square], [aspect-video]. *)
Theorem C4_aspect_class_bijection :
  classNameByAspectRatio auto = "aspect-auto" ∧
  classNameByAspectRatio square = "aspect-square" ∧
  classNameByAspectRatio video = "aspect-video" ∧
  (∀ a b, classNameByAspectRatio a = classNameByAspectRatio b → a = b) ∧
  (∀ c, (c ∈ ["aspect-auto"; "aspect-square"; "aspect-video"])
        ↔ (∃ a, classNameByAspectRatio a = c)) ∧
  (∀ props i, ∃ children,
        view props i
        = div (classNameByAspectRatio (aspectRatioMode props)) children).
Proof.
  repeat split.
  - intros [] []; cbn; congruence.
  - intros H. repeat (apply elem_of_cons in H as [-> | H]).
    + by exists auto.
    + by exists square.
    + by exists video.
    + by apply elem_of_nil in H.
  - intros [[] <-]; cbn; set_solver.
  - apply view_container.
Qed.

(** C5: with shimmer on, once the image has signalled that it is loaded, the
    [img]'s class string is made of the base classes [h-full w-full] and the
    caller's class only: its class list is those two classes followed by the
    caller's, so a pulse class is in it only if the caller supplied it. *)
Theorem C5_loaded_has_no_pulse (props : Props.t) (i : Instance) :
  shimmerEnabled props = true →
  reachable props i →
  loaded i = true →
  ∃ className,
    view props i
    = div (classNameByAspectRatio (aspectRatioMode props))
        [img (Props.alt props) className (Some (SetState 0 true)) (Props.src props)] ∧
    className = clsx [CvString "h-full w-full"; of_prop (extraClassName props)] ∧
    classList className
    = (["h-full"; "w-full"] ++ classList (default "" (extraClassName props)))%list ∧
    ∀ c, c ∈ pulseClasses → c ∈ classList className →
         c ∈ classList (default "" (extraClassName props)).
Proof.
  intros Hs Hr Hl.
  destruct (reachable_coherent props Hs i Hr) as (l & m & Hst & Hlm).
  assert (mounted i = true) as Hm.
  { unfold loaded, mounted in *. rewrite Hst in *. cbn in *. auto. }
  eexists. split; [|split; [reflexivity|]].
  - rewrite view_shimmer, Hm by done. reflexivity.
  - pose proof (classList_base_extra (extraClassName props)) as Hcl.
    change (clsx [CvString "h-full w-full"; CvBool false;
                  of_prop (extraClassName props)])
      with (clsx [CvString "h-full w-full"; of_prop (extraClassName props)]) in Hcl.
    split; [exact Hcl|].
    intros c Hc. rewrite Hcl. intros [Hin | Hin]%elem_of_app; [|done].
    exfalso. vm_compute in Hc.
    repeat (apply elem_of_cons in Hc as [-> | Hc]);
      repeat (apply elem_of_cons in Hin as [Hin | Hin]; try discriminate);
      try (apply elem_of_nil in Hin; contradiction);
      apply elem_of_nil in Hc; contradiction.
Qed.

Lemma C5_loaded_has_no_pulse_witness :
  shimmerEnabled catRequest = true ∧
  reachable catRequest (run catRequest [Commit; Load]) ∧
  loaded (run catRequest [Commit; Load]) = true ∧
  ∃ className,
    view catRequest (run catRequest [Commit; Load])
    = div "aspect-video"
        [img "A cat" className (Some (SetState 0 true)) "/cat.jpg"] ∧
    className = "h-full w-full" ∧
    classList className = ["h-full"; "w-full"] ∧
    ∀ c, c ∈ pulseClasses → c ∈ classList className → c ∈ classList "".
Proof.
  split; [reflexivity|]. split; [by exists [Commit; Load]|]. split; [reflexivity|].
  apply (C5_loaded_has_no_pulse catRequest (run catRequest [Commit; Load]));
    [reflexivity | by exists [Commit; Load] | reflexivity].
Defined.

(** C6: along every sequence of events of a shimmer instance each of the two
    flags starts false, stays true once it is true and so changes at most
    once; a load event in the state CONFIRMED_LOADED leaves the instance as
    it is. *)
Theorem C6_flags_monotonic_idempotent
    (props : Props.t) (evs : list Event) (ev : Event) :
  shimmerEnabled props = true →
  loaded (mount props) = false ∧
  mounted (mount props) = false ∧
  (loaded (run props evs) = true →
   loaded (fire props (run props evs) ev) = true) ∧
  (mounted (run props evs) = true →
   mounted (fire props (run props evs) ev) = true) ∧
  (flips (loaded <$> trace props evs) ≤ 1)%nat ∧
  (flips (mounted <$> trace props evs) ≤ 1)%nat ∧
  (phase (run props evs) = Some CONFIRMED_LOADED →
   fire props (run props evs) Load = run props evs ∧
   phase (fire props (run props evs) Load) = Some CONFIRMED_LOADED).
Proof.
  intros Hs. set (i := run props evs).
  pose proof (run_coherent props Hs evs) as Hi. fold i in Hi.
  rewrite mount_shimmer by done.
  split; [reflexivity|]. split; [reflexivity|].
  split; [by apply fire_loaded_mono|].
  split; [by apply fire_mounted_mono|].
  split.
  { apply flips_once; [done | | by apply mount_coherent].
    intros j e. by apply fire_loaded_mono. }
  split.
  { apply flips_once; [done | | by apply mount_coherent].
    intros j e. by apply fire_mounted_mono. }
  intros Hp.
  assert (loaded i = true ∧ mounted i = true) as [Hl Hm].
  { unfold phase in Hp. destruct (mounted i), (loaded i); done. }
  rewrite (fire_Load_loaded props Hs i Hl Hm). done.
Qed.

Lemma C6_flags_monotonic_idempotent_witness :
  shimmerEnabled catRequest = true ∧
  phase (run catRequest [Commit; Load]) = Some CONFIRMED_LOADED ∧
  fire catRequest (run catRequest [Commit; Load]) Load
  = run catRequest [Commit; Load].
Proof.
  split; [reflexivity|]. split; [reflexivity|].
  apply (C6_flags_monotonic_idempotent catRequest [Commit; Load] Load);
    reflexivity.
Defined.

(** C7: without shimmer the render pass reads and writes no hook state, and
    two requests that agree on [alt], [src], the aspect-ratio mode and the
    caller's class give the same tree, whatever the hook states of the two
    runs. *)
Theorem C7_plain_render_is_a_function_of_the_request
    (p1 p2 : Props.t) (h1 h2 : Hooks) :
  shimmerEnabled p1 = false →
  shimmerEnabled p2 = false →
  Props.alt p1 = Props.alt p2 →
  Props.src p1 = Props.src p2 →
  aspectRatioMode p1 = aspectRatioMode p2 →
  extraClassName p1 = extraClassName p2 →
  fst (Image p1 h1) = fst (Image p2 h2) ∧
  snd (Image p1 h1) = h1 ∧
  snd (Image p2 h2) = h2.
Proof.
  intros Hs1 Hs2 Halt Hsrc Har Hcl.
  rewrite !Image_plain by done. cbn [fst snd].
  rewrite Halt, Hsrc, Har, Hcl. done.
Qed.

Lemma C7_plain_render_is_a_function_of_the_request_witness :
  shimmerEnabled plainRequest = false ∧ shimmerEnabled plainRequest' = false ∧
  fst (Image plainRequest (mkHooks [] 0 []))
  = fst (Image plainRequest' (mkHooks [true; false] 7 [mkEffect (SetState 1 true) []])) ∧
  snd (Image plainRequest (mkHooks [] 0 [])) = mkHooks [] 0 [] ∧
  snd (Image plainRequest' (mkHooks [true; false] 7 [mkEffect (SetState 1 true) []]))
  = mkHooks [true; false] 7 [mkEffect (SetState 1 true) []].
Proof.
  split; [reflexivity|]. split; [reflexivity|].
  apply C7_plain_render_is_a_function_of_the_request; reflexivity.
Defined.

(** C8: whatever strings [alt] and [src] are, the empty string included,
    [Image] returns a tree; every [img] in it has exactly the given [alt] and
    [src], and the tree has that one [img] on the plain path and, on the
    shimmer path, from the confirmation of the environment on (before it the
    tree holds the placeholder and no [img]). *)
Theorem C8_alt_and_src_pass_unchanged (props : Props.t) (i : Instance) :
  (∀ e, e ∈ images (view props i) →
        ∃ className handler,
          e = img (Props.alt props) className handler (Props.src props)) ∧
  (∃ className handler,
     images (view props i)
     = if shimmerEnabled props && negb (mounted i) then []
       else [img (Props.alt props) className handler (Props.src props)]) ∧
  view emptyRequest (mount emptyRequest)
  = div "aspect-auto" [img "" "h-full w-full" None ""].
Proof.
  split; [|split; [|reflexivity]].
  - intros e He. destruct (Image_img_className props i e He) as [handler ->]. eauto.
  - destruct (shimmerEnabled props) eqn:Hs.
    + rewrite view_shimmer by done. destruct (mounted i); cbn; eauto.
      exists "", None. reflexivity.
    + rewrite view_plain by done. cbn. eauto.
Qed.

(** C10: in every state a shimmer instance can reach, [loaded] implies
    [mounted]: the state is one of the three of the state machine, and a load
    handler is in the tree only when [mounted] is set. *)
Theorem C10_loaded_implies_mounted (props : Props.t) (i : Instance) :
  shimmerEnabled props = true →
  reachable props i →
  (loaded i = true → mounted i = true) ∧
  (∃ ph, phase i = Some ph) ∧
  (loadHandlers (view props i) ≠ [] → mounted i = true) ∧
  (mounted i = false → fire props i Load = i).
Proof.
  intros Hs Hr.
  destruct (reachable_coherent props Hs i Hr) as (l & m & Hst & Hlm).
  assert (loaded i = l ∧ mounted i = m) as [Hl Hm].
  { unfold loaded, mounted. rewrite Hst. done. }
  rewrite view_shimmer by done.
  repeat split.
  - rewrite Hl, Hm. exact Hlm.
  - unfold phase. rewrite Hl, Hm. destruct l, m; eauto.
    discriminate (Hlm eq_refl).
  - destruct (mounted i); [done|]. cbn. congruence.
  - intros Hf. destruct i as [st c]. cbn [fire state committed].
    rewrite view_shimmer, Hf by done. reflexivity.
Qed.

Lemma C10_loaded_implies_mounted_witness :
  shimmerEnabled catRequest = true ∧
  reachable catRequest (run catRequest [Load; Commit; Load]) ∧
  loaded (run catRequest [Load; Commit; Load]) = true ∧
  mounted (run catRequest [Load; Commit; Load]) = true.
Proof.
  split; [reflexivity|]. split; [by exists [Load; Commit; Load]|].
  split; [reflexivity|].
  refine (proj1 (C10_loaded_implies_mounted catRequest
                   (run catRequest [Load; Commit; Load]) _ _) _);
    [reflexivity | by exists [Load; Commit; Load] | reflexivity].
Defined.

(** ** The content schema *)

Section SchemaCombinators.

Lemma clean_app (a b : list Issue) : clean (a ++ b)%list = clean a && clean b.
Proof. destruct a; reflexivity. Qed.

Lemma clean_string (p : list string) (v : Value) :
  clean (z_string p v) = isString v.
Proof. destruct v; reflexivity. Qed.

Lemma clean_date (p : list string) (v : Value) :
  clean (z_date p v) = isDate v.
Proof. destruct v as [| | | | |[t|]| |]; reflexivity. Qed.

Lemma clean_or (a b : Schema) (p : list string) (v : Value) :
  clean (z_or a b p v) = clean (a p v) || clean (b p v).
Proof. unfold z_or. destruct (a p v), (b p v); reflexivity. Qed.

Lemma clean_optional (a : Schema) (p : list string) (v : Value) :
  clean (z_optional a p v) = isAbsent v || clean (a p v).
Proof. destruct v; reflexivity. Qed.

(** A required string that is not one is reported at its key. *)
Lemma z_string_issue (p : list string) (v : Value) :
  isString v = false → z_string p v = [mkIssue invalid_type p].
Proof. destruct v; cbn; congruence. Qed.

Lemma issues_blog_object (data : gmap string Value) :
  issues blog (VObject data)
  = (z_string ["title"] (field data "title")
     ++ z_string ["description"] (field data "description")
     ++ z_optional (z_or z_string z_date) ["publishDate"] (field data "publishDate")
     ++ z_optional (z_or z_string z_date) ["updateDate"] (field data "updateDate")
     ++ z_optional z_string ["heroImage"] (field data "heroImage"))%list.
Proof. unfold issues, blog. cbn. rewrite app_nil_r. reflexivity. Qed.

End SchemaCombinators.

(** C9: the schema accepts a frontmatter value exactly when it is a record
    with a string [title] and a string [description], whose [publishDate] and
    [updateDate] are each absent or a string or a date, and whose [heroImage]
    is absent or a string; a record whose [title] or [description] is missing
    or not a string is rejected, with an issue at that key. *)
Theorem C9_schema_accepts_exactly_the_record_shape (data : Value) :
  accepts blog data = matchesRecordShape data ∧
  (∀ fields key,
      key ∈ ["title"; "description"] →
      isString (field fields key) = false →
      accepts blog (VObject fields) = false ∧
      mkIssue invalid_type [key] ∈ issues blog (VObject fields)).
Proof.
  split.
  - destruct data; try reflexivity.
    unfold accepts. rewrite issues_blog_object. cbn [matchesRecordShape].
    rewrite !clean_app, !clean_optional, !clean_or, !clean_string, !clean_date.
    rewrite !andb_assoc, !orb_assoc. reflexivity.
  - intros fields key Hkey Hns.
    assert (mkIssue invalid_type [key] ∈ issues blog (VObject fields)) as Hin.
    { rewrite issues_blog_object.
      apply elem_of_cons in Hkey as [-> | Hkey].
      - rewrite (z_string_issue ["title"]) by done. set_solver.
      - apply list_elem_of_singleton in Hkey as ->.
        rewrite (z_string_issue ["description"]) by done. set_solver. }
    split; [|done].
    unfold accepts. destruct (issues blog (VObject fields)); [|done].
    by apply elem_of_nil in Hin.
Qed.

Lemma C9_schema_accepts_exactly_the_record_shape_witness :
  accepts blog goodPost = true ∧
  isString (field (<["title" := VNumber 42]>
                   (<["description" := VString "First post"]> ∅)) "title") = false ∧
  accepts blog badPost = false ∧
  mkIssue invalid_type ["title"] ∈ issues blog badPost.
Proof.
  split; [reflexivity|]. split; [reflexivity|].
  refine (proj2 (C9_schema_accepts_exactly_the_record_shape VNull) _ "title" _ _).
  - set_solver.
  - reflexivity.
Defined.

(** * Further properties of the code *)

(** ** [Img] on its own *)

Section ImgAlone.

Lemma append_assoc (a b c : string) : (a +:+ b) +:+ c = a +:+ (b +:+ c).
Proof.
  induction a as [|x a IH]; [reflexivity|].
  change (String x ((a +:+ b) +:+ c) = String x (a +:+ (b +:+ c))).
  by rewrite IH.
Qed.

Lemma classList_empty_toVal (v : ClassValue) :
  truthy v = false → classList (toVal v) = [].
Proof.
  destruct v as [s| |]; cbn; try done.
  destruct s; [done | discriminate].
Qed.

(** The class list [clsx] produces is made of the class lists of its
    arguments, in order: falsy arguments contribute nothing, and no token is
    glued to its neighbour. *)
Lemma classList_clsx_loop (args : list ClassValue) (str : string) :
  classList (clsx_loop str args)
  = (classList str ++ flat_map (λ v, classList (toVal v)) args)%list.
Proof.
  revert str. induction args as [|v args IH]; intros str.
  - cbn. by rewrite app_nil_r.
  - cbn [clsx_loop flat_map]. destruct (truthy v) eqn:Hv.
    + destruct (String.eqb (toVal v) "") eqn:Hx.
      * apply String.eqb_eq in Hx. rewrite IH, Hx. reflexivity.
      * rewrite IH, (assoc_L (++)). f_equal.
        destruct (String.eqb str "") eqn:Hs.
        { apply String.eqb_eq in Hs as ->. reflexivity. }
        rewrite append_assoc. apply classList_sep.
    + rewrite IH, classList_empty_toVal by done. reflexivity.
Qed.

Lemma classList_clsx (args : list ClassValue) :
  classList (clsx args) = flat_map (λ v, classList (toVal v)) args.
Proof. unfold clsx. by rewrite classList_clsx_loop. Qed.

End ImgAlone.

(** X1: whatever props [Img] is given, it passes [alt], [src] and the load
    handler through, and the class list of the element is [h-full], [w-full],
    then the three pulse classes exactly when [shimmer] is set and [loaded]
    is not, then the caller's classes in their order. *)
Theorem X1_Img_class_list (p : ImgProps.t) :
  ∃ className,
    Img p = img (ImgProps.alt p) className (ImgProps.handleLoad p) (ImgProps.src p) ∧
    classList className
    = (["h-full"; "w-full"]
       ++ (if default false (ImgProps.shimmer p)
              && negb (default false (ImgProps.loaded p))
           then ["bg-slate-100"; "dark:bg-slate-900"; "animate-pulse"] else [])
       ++ classList (default "" (ImgProps.className p)))%list.
Proof.
  eexists. split; [reflexivity|].
  rewrite classList_clsx. cbn [flat_map]. rewrite app_nil_r.
  destruct (default false (ImgProps.shimmer p)),
    (default false (ImgProps.loaded p)), (ImgProps.className p); reflexivity.
Qed.

(** ** Commits, loads and the state machine *)

Section Machine.

Variable props : Props.t.
Hypothesis shimmer_on : shimmerEnabled props = true.

Lemma registered_shimmer (i : Instance) :
  effects (snd (render props i)) = [mountEffect].
Proof. rewrite render_shimmer by done. reflexivity. Qed.

(** The first commit runs the effect and records it. *)
Lemma fire_Commit_fresh (i : Instance) (l m : bool) :
  state i = [l; m] → committed i = None →
  fire props i Commit = mkInstance [l; true] (Some [mountEffect]).
Proof.
  intros Hst Hc. cbn [fire]. rewrite registered_shimmer, Hc, Hst. reflexivity.
Qed.

(** A later commit finds the dependency array unchanged and runs nothing. *)
Lemma fire_Commit_again (i : Instance) :
  committed i = Some [mountEffect] → fire props i Commit = i.
Proof.
  intros Hc. destruct i as [st c]. cbn in Hc. subst c.
  cbn [fire state committed]. rewrite registered_shimmer. cbn.
  case_decide; done.
Qed.

Lemma fire_settled (i : Instance) (ev : Event) :
  coherent i → settled i → settled (fire props i ev).
Proof.
  intros (l & m & Hst & Hlm) Hset. destruct ev.
  - destruct Hset as [[Hc Hm] | [Hc Hm]].
    + rewrite (fire_Commit_fresh i l m Hst Hc). by right.
    + rewrite (fire_Commit_again i Hc). by right.
  - assert (mounted (fire props i Load) = mounted i) as Hm'.
    { unfold mounted. rewrite (fire_Load_state props shimmer_on i l m Hst), Hst.
      by destruct m. }
    unfold settled. rewrite Hm'. exact Hset.
Qed.

Lemma mount_settled : settled (mount props).
Proof. rewrite mount_shimmer by done. by left. Qed.



(** One event moves the phase as [next] says. *)
Lemma fire_phase (i : Instance) (ev : Event) (ph : Phase) :
  coherent i → settled i → phase i = Some ph →
  phase (fire props i ev) = Some (next ph ev).
Proof.
  intros (l & m & Hst & Hlm) Hset Hph.
  assert (loaded i = l ∧ mounted i = m) as [Hl Hm].
  { unfold loaded, mounted. by rewrite Hst. }
  unfold phase in Hph. rewrite Hl, Hm in Hph.
  destruct ev.
  - destruct Hset as [[Hc Hm'] | [Hc Hm']].
    + rewrite (fire_Commit_fresh i l m Hst Hc).
      rewrite Hm in Hm'. subst m. destruct l; [by discriminate (Hlm eq_refl)|].
      by simplify_eq.
    + rewrite (fire_Commit_again i Hc). unfold phase. rewrite Hl, Hm.
      rewrite Hm in Hm'. subst m. by destruct l; simplify_eq.
  - unfold phase, loaded, mounted.
    rewrite (fire_Load_state props shimmer_on i l m Hst).
    by destruct l, m; simplify_eq.
Qed.

Lemma foldl_fire_phase (evs : list Event) (i : Instance) (ph : Phase) :
  coherent i → settled i → phase i = Some ph →
  phase (foldl (fire props) i evs) = Some (foldl next ph evs).
Proof.
  revert i ph. induction evs as [|ev evs IH]; intros i ph Hi Hs Hph; cbn; [done|].
  apply IH; [by apply fire_coherent | by apply fire_settled | by apply fire_phase].
Qed.

End Machine.



(** X3: a shimmer instance follows the three-state machine: after any
    sequence of commits and load events its state is the one the machine
    reaches from UNCONFIRMED.  A load event before the first commit is lost,
    the first commit leads to CONFIRMED_LOADING, the first load event after
    it to CONFIRMED_LOADED, and nothing leads back. *)
Theorem X3_instance_follows_the_state_machine
    (props : Props.t) (evs : list Event) :
  shimmerEnabled props = true →
  phase (run props evs) = Some (foldl next UNCONFIRMED evs).
Proof.
  intros Hs. unfold run. apply foldl_fire_phase; try done.
  - by apply mount_coherent.
  - by apply mount_settled.
  - rewrite mount_shimmer by done. reflexivity.
Qed.

Lemma X3_instance_follows_the_state_machine_witness :
  shimmerEnabled catRequest = true ∧
  phase (run catRequest [Load; Load; Commit; Commit; Load; Commit])
  = Some CONFIRMED_LOADED.
Proof.
  split; [reflexivity|].
  apply (X3_instance_follows_the_state_machine catRequest
           [Load; Load; Commit; Commit; Load; Commit]).
  reflexivity.
Defined.

(** ** What a render pass does to the hook state *)

Lemma Image_shimmer_hooks (props : Props.t) (h : Hooks) :
  shimmerEnabled props = true →
  ∃ added,
    snd (Image props h)
    = mkHooks (cells h ++ added) (S (S (cursor h)))
        (effects h ++ [mkEffect (SetState (S (cursor h)) true) []]) ∧
    (length added ≤ 2)%nat.
Proof.
  unfold shimmerEnabled, Image. intros ->. destruct h as [cs c es].
  cbn [negb]. unfold mbind, Render_bind, mret, Render_ret, useState, useEffect.
  cbn [cells cursor effects].
  destruct (cs !! c) eqn:H1; cbn [cells cursor effects].
  - destruct (cs !! S c) eqn:H2; cbn [snd cells cursor effects].
    + exists []. rewrite app_nil_r. split; [done | cbn; lia].
    + exists [false]. split; [done | cbn; lia].
  - destruct ((cs ++ [false])%list !! S c) eqn:H2; cbn [snd cells cursor effects].
    + exists [false]. split; [done | cbn; lia].
    + exists [false; false]. rewrite <- (assoc_L (++)). split; [done | cbn; lia].
Qed.

(** X4: a render pass of [Image] never changes or removes a state cell: the
    cells it finds are a prefix of the cells it leaves.  Without shimmer it
    calls no hook at all; with shimmer it calls two state hooks, creating at
    most two cells, and registers one effect, the setter of the second of
    them.  Re-rendering an instance that was mounted leaves its cells as they
    are. *)
Theorem X4_render_keeps_the_cells (props : Props.t) (h : Hooks) :
  cells h `prefix_of` cells (snd (Image props h)) ∧
  (length (cells (snd (Image props h))) ≤ length (cells h) + 2)%nat ∧
  cursor (snd (Image props h))
  = (cursor h + (if shimmerEnabled props then 2 else 0))%nat ∧
  effects (snd (Image props h))
  = (effects h ++ (if shimmerEnabled props
                   then [mkEffect (SetState (S (cursor h)) true) []]
                   else []))%list ∧
  (∀ i, reachable props i → cells (snd (render props i)) = state i).
Proof.
  destruct (shimmerEnabled props) eqn:Hs.
  - destruct (Image_shimmer_hooks props h Hs) as (added & -> & Hlen).
    cbn [cells cursor effects]. split_and!.
    + by apply prefix_app_r.
    + rewrite length_app. lia.
    + lia.
    + done.
    + intros i Hr.
      destruct (reachable_coherent props Hs i Hr) as (l & m & Hst & _).
      rewrite render_shimmer, Hst by done. reflexivity.
  - rewrite Image_plain by done. cbn [snd]. split_and!.
    + done.
    + lia.
    + lia.
    + by rewrite app_nil_r.
    + intros i [evs ->]. unfold render. rewrite Image_plain by done. reflexivity.
Qed.

(** X5: the tree [Image] renders depends on its state through [mounted]
    only; [loaded] has no influence on it.  So a load event, which can only
    set [loaded], never changes what is rendered. *)
Theorem X5_load_never_changes_the_tree (props : Props.t) (i : Instance) :
  view props (fire props i Load) = view props i ∧
  mounted (fire props i Load) = mounted i ∧
  (∀ j, mounted j = mounted i → view props j = view props i).
Proof.
  assert (mounted (fire props i Load) = mounted i) as Hm.
  { unfold mounted. cbn [fire state].
    destruct (shimmerEnabled props) eqn:Hs.
    - rewrite view_shimmer by done. destruct (mounted i); cbn; [|done].
      by rewrite list_lookup_insert_ne.
    - rewrite view_plain by done. reflexivity. }
  assert (∀ j, mounted j = mounted i → view props j = view props i) as Hview.
  { intros j Hj. destruct (shimmerEnabled props) eqn:Hs.
    - rewrite !view_shimmer, Hj by done. reflexivity.
    - rewrite !view_plain by done. reflexivity. }
  auto.
Qed.

(** ** The issues the schema reports *)

Section SchemaIssues.

Lemma blog_shape : schema blog = z_object blogShape.
Proof. reflexivity. Qed.

Lemma z_string_cases (p : list string) (v : Value) :
  z_string p v = if isString v then [] else [mkIssue invalid_type p].
Proof. destruct v; reflexivity. Qed.

Lemma z_optional_string_cases (p : list string) (v : Value) :
  z_optional z_string p v
  = if isAbsent v || isString v then [] else [mkIssue invalid_type p].
Proof. destruct v; reflexivity. Qed.

Lemma z_optional_date_cases (p : list string) (v : Value) :
  z_optional (z_or z_string z_date) p v
  = if isAbsent v || isString v || isDate v then []
    else [mkIssue invalid_union p].
Proof. destruct v as [| | | | |[t|]| |]; reflexivity. Qed.

Lemma field_insert_ne (m : gmap string Value) (key k : string) (v : Value) :
  key ≠ k → field (<[key := v]> m) k = field m k.
Proof. intros Hne. unfold field. by rewrite lookup_insert_ne. Qed.

Lemma field_delete_ne (m : gmap string Value) (key k : string) :
  key ≠ k → field (delete key m) k = field m k.
Proof. intros Hne. unfold field. by rewrite lookup_delete_ne. Qed.

Lemma not_shape_key (key : string) :
  key ∉ shapeKeys →
  key ≠ "title" ∧ key ≠ "description" ∧ key ≠ "publishDate"
  ∧ key ≠ "updateDate" ∧ key ≠ "heroImage".
Proof.
  intros Hk. split_and!; intros ->; apply Hk; unfold shapeKeys; cbn; set_solver.
Qed.

End SchemaIssues.

(** X6: the schema does not look at keys outside its shape: adding, changing
    or removing such a key changes neither the issues nor the verdict. *)
Theorem X6_keys_outside_the_shape_are_ignored
    (m : gmap string Value) (key : string) (v : Value) :
  key ∉ shapeKeys →
  issues blog (VObject (<[key := v]> m)) = issues blog (VObject m) ∧
  issues blog (VObject (delete key m)) = issues blog (VObject m) ∧
  accepts blog (VObject (<[key := v]> m)) = accepts blog (VObject m).
Proof.
  intros Hk. destruct (not_shape_key key Hk) as (H1 & H2 & H3 & H4 & H5).
  assert (issues blog (VObject (<[key := v]> m)) = issues blog (VObject m)) as Hins.
  { rewrite !issues_blog_object, !field_insert_ne by done. reflexivity. }
  split_and!; [done | | by unfold accepts; rewrite Hins].
  rewrite !issues_blog_object, !field_delete_ne by done. reflexivity.
Qed.

Lemma X6_keys_outside_the_shape_are_ignored_witness :
  ("draft" ∉ shapeKeys) ∧
  issues blog (VObject (<["draft" := VBoolean true]> ∅)) = issues blog (VObject ∅).
Proof.
  assert ("draft" ∉ shapeKeys) as Hk.
  { unfold shapeKeys. cbn. intros H.
    repeat (apply elem_of_cons in H as [H | H]; [discriminate|]).
    by apply elem_of_nil in H. }
  split; [exact Hk|].
  exact (proj1 (X6_keys_outside_the_shape_are_ignored ∅ "draft" (VBoolean true) Hk)).
Defined.

(** X7: for a record the schema reports exactly one issue for each key of its
    shape whose value it does not take, in the order of the shape, at the path
    of that key: [invalid_type] for [title], [description] and [heroImage],
    [invalid_union] for the two dates.  So every offending field is reported,
    not only the first, and an optional field set to [null] is an offence.
    Anything that is not a record gets the single issue [invalid_type] at the
    root. *)
Theorem X7_one_issue_per_offending_key (data : Value) :
  (∀ m, data = VObject m →
        issues blog data
        = (λ key, mkIssue (codeAt key) [key])
            <$> List.filter (λ key, negb (fieldOK key (field m key))) shapeKeys) ∧
  (isObject data = false → issues blog data = [mkIssue invalid_type []]) ∧
  issues blog nullPost
  = [mkIssue invalid_union ["updateDate"]; mkIssue invalid_type ["heroImage"]].
Proof.
  split_and!.
  - intros m ->. rewrite issues_blog_object.
    rewrite !z_string_cases, !z_optional_date_cases, z_optional_string_cases.
    unfold shapeKeys. cbn [blogShape fmap list_fmap fst List.filter].
    change (fieldOK "title" (field m "title")) with (isString (field m "title")).
    change (fieldOK "description" (field m "description"))
      with (isString (field m "description")).
    change (fieldOK "publishDate" (field m "publishDate"))
      with (isAbsent (field m "publishDate") || isString (field m "publishDate")
            || isDate (field m "publishDate")).
    change (fieldOK "updateDate" (field m "updateDate"))
      with (isAbsent (field m "updateDate") || isString (field m "updateDate")
            || isDate (field m "updateDate")).
    change (fieldOK "heroImage" (field m "heroImage"))
      with (isAbsent (field m "heroImage") || isString (field m "heroImage")).
    destruct (isString (field m "title")), (isString (field m "description")),
      (isAbsent (field m "publishDate") || isString (field m "publishDate")
       || isDate (field m "publishDate")),
      (isAbsent (field m "updateDate") || isString (field m "updateDate")
       || isDate (field m "updateDate")),
      (isAbsent (field m "heroImage") || isString (field m "heroImage"));
      reflexivity.
  - destruct data; try reflexivity. discriminate.
  - reflexivity.
Qed.
